(** * AudioPlayer: a shallow embedding of the audio-playback widget

    The widget ([AudioPlayer], a React function component over expo-av) is
    modelled the way it is written:

    - the six [useState] cells form the record [State];
    - every handler is a closure created by a render, so it is a function of
      the props and of the state values that render saw, and it writes the
      component state through setters;
    - the [async] handlers run in a small state-and-exception monad [M];
      a [World] holds the component state, the trace of platform calls and
      the console log, and a [Run] adds the outcomes (resolve / reject) of
      the platform promises the handler will await;
    - one event is handled to its end before the next one is taken;
    - JavaScript numbers are finite rationals ([Q]); NaN, the infinities and
      rounding are outside the model. *)

From Stdlib Require Import ZArith QArith Qround Qminmax.
From Stdlib Require Import String Ascii List Bool Lia DecimalString.
From Stdlib Require Import DecimalPos DecimalZ.
Import ListNotations.

Local Open Scope string_scope.

(** ** JavaScript primitives used by the component *)
Module JS.

(** Truthiness of a number: [0] is falsy. *)
Definition truthy (x : Q) : bool := negb (Qnum x =? 0)%Z.

(** Truthiness of [number | null]. *)
Definition truthy_opt (x : option Q) : bool :=
  match x with
  | Some q => truthy q
  | None => false
  end.

(** Truthiness of an optional string: the empty string is falsy. *)
Definition truthy_str (s : option string) : bool :=
  match s with
  | Some (String _ _) => true
  | _ => false
  end.

(** [x || null] on an optional number. *)
Definition or_null (x : option Q) : option Q :=
  if truthy_opt x then x else None.

(** [Math.floor]. *)
Definition floor (x : Q) : Z := Qfloor x.

(** [Math.floor (a / b)] on integers, for a positive [b]. *)
Definition floor_div (a b : Z) : Z := (a / b)%Z.

(** The remainder operator [%] on integers: the sign of the dividend. *)
Definition rem (a b : Z) : Z := Z.rem a b.

(** [Number.prototype.toString] on an integer. *)
Definition toString (z : Z) : string := NilZero.string_of_int (Z.to_int z).

(** The filling of [padStart]: the first [k] characters of [pad] repeated;
    [cur] is what is left of the current repetition. *)
Fixpoint fill (k : nat) (pad cur : string) : string :=
  match k with
  | O => ""
  | S k' =>
      match cur with
      | String c rest => String c (fill k' pad rest)
      | EmptyString =>
          match pad with
          | String c rest => String c (fill k' pad rest)
          | EmptyString => ""
          end
      end
  end.

(** [String.prototype.padStart]. *)
Definition padStart (target : nat) (pad s : string) : string :=
  fill (target - String.length s) pad pad ++ s.

(** [Math.max] and [Math.min] on two numbers. *)
Definition max (a b : Q) : Q := Qmax a b.
Definition min (a b : Q) : Q := Qmin a b.

End JS.

(** ** [formatTime] *)

Definition formatTime (milliseconds : option Q) : string :=
  match milliseconds with
  | None => "0:00"
  | Some ms =>
      if negb (JS.truthy ms) then "0:00"
      else
        let seconds := JS.floor (ms / 1000) in
        let minutes := JS.floor_div seconds 60 in
        let remainingSeconds := JS.rem seconds 60 in
        JS.toString minutes ++ ":" ++ JS.padStart 2 "0" (JS.toString remainingSeconds)
  end.

(** ** The platform audio API (expo-av), as the component sees it *)
Module Platform.

(** A [Sound] object is named by the order in which it was created. *)
Definition Handle := nat.

(** The asynchronous calls the component issues.  [CreateAsync] carries the
    name of the [Sound] object its promise resolves to and the initial
    status the component asks for. *)
Inductive Call : Type :=
| SetAudioModeAsync
| CreateAsync (newSound : Handle) (uri : string)
              (shouldPlay isLooping : bool) (volume : Q)
| UnloadAsync (h : Handle)
| PlayAsync (h : Handle)
| PauseAsync (h : Handle)
| SetPositionAsync (h : Handle) (positionMillis : Q).

(** A promise either resolves or rejects. *)
Inductive Outcome : Type := Resolves | Rejects.

Record Entry : Type := mkEntry { call : Call; outcome : Outcome }.

(** The playback status object: a union discriminated by [isLoaded]. *)
Record LoadedStatus : Type := mkLoaded {
  durationMillis : option Q;
  positionMillis : Q;
  isPlaying : bool;
  didJustFinish : bool
}.

Inductive Status : Type :=
| StatusSuccess (st : LoadedStatus)
| StatusError (error : option string).

Definition isLoaded (s : Status) : bool :=
  match s with
  | StatusSuccess _ => true
  | StatusError _ => false
  end.

(** What the calls made so far have asked of one [Sound] object: the
    contract of the platform calls, read off the trace.  A rejected call
    changes nothing; seeking keeps the playing state. *)
Record Sound : Type := mkSound {
  loaded : bool;
  playing : bool;
  at_position : Q
}.

Definition unloaded : Sound := mkSound false false 0.

Definition touch (h : Handle) (e : Entry) (s : Sound) : Sound :=
  match outcome e with
  | Rejects => s
  | Resolves =>
      match call e with
      | SetAudioModeAsync => s
      | CreateAsync h' _ shouldPlay _ _ =>
          if Nat.eqb h' h then mkSound true shouldPlay 0 else s
      | UnloadAsync h' =>
          if Nat.eqb h' h then unloaded else s
      | PlayAsync h' =>
          if Nat.eqb h' h && loaded s then mkSound true true (at_position s) else s
      | PauseAsync h' =>
          if Nat.eqb h' h && loaded s then mkSound true false (at_position s) else s
      | SetPositionAsync h' pos =>
          if Nat.eqb h' h && loaded s then mkSound true (playing s) pos else s
      end
  end.

Definition sound_from (s : Sound) (trace : list Entry) (h : Handle) : Sound :=
  fold_left (fun acc e => touch h e acc) trace s.

Definition sound_after (trace : list Entry) (h : Handle) : Sound :=
  sound_from unloaded trace h.

Arguments sound_after : simpl never.

(** The calls of a trace, without their outcomes. *)
Definition issued (trace : list Entry) : list Call := map call trace.

Definition is_playback_call (c : Call) : bool :=
  match c with
  | PlayAsync _ | PauseAsync _ => true
  | _ => false
  end.

End Platform.

Import Platform.

(** ** Component state and props *)

(** The host's callback is opaque; it is named, and its invocations are
    recorded. *)
Definition CallbackId := nat.

Record Props : Type := mkProps {
  fileUrl : string;
  title : option string;
  onPlaybackStatusUpdate : option CallbackId
}.

Record State : Type := mkState {
  sound : option Handle;
  isPlaying : bool;
  isLoading : bool;
  duration : option Q;
  position : option Q;
  error : option string
}.

(** The initial values given to [useState]. *)
Definition initial_state : State :=
  mkState None false false None None None.

(** A call of one of the six state setters. *)
Inductive SetAction : Type :=
| SetSound (v : option Handle)
| SetIsPlaying (v : bool)
| SetIsLoading (v : bool)
| SetDuration (v : option Q)
| SetPosition (v : option Q)
| SetError (v : option string).

Definition apply_set (a : SetAction) (s : State) : State :=
  match a with
  | SetSound v => mkState v (isPlaying s) (isLoading s) (duration s) (position s) (error s)
  | SetIsPlaying v => mkState (sound s) v (isLoading s) (duration s) (position s) (error s)
  | SetIsLoading v => mkState (sound s) (isPlaying s) v (duration s) (position s) (error s)
  | SetDuration v => mkState (sound s) (isPlaying s) (isLoading s) v (position s) (error s)
  | SetPosition v => mkState (sound s) (isPlaying s) (isLoading s) (duration s) v (error s)
  | SetError v => mkState (sound s) (isPlaying s) (isLoading s) (duration s) (position s) v
  end.

(** ** The world a handler runs in *)

(** What a [catch] clause receives. *)
Inductive Exn : Type := Rejected (c : Call).

(** The second argument of a [console.error]. *)
Inductive Logged : Type :=
| LogExn (e : Exn)
| LogText (s : option string).

(** What lasts from one event to the next. *)
Record World : Type := mkWorld {
  state : State;                          (* the useState cells *)
  calls : list Entry;                     (* platform calls, oldest first *)
  console : list (string * Logged);       (* console.error lines *)
  nextHandle : Handle;                    (* the next Sound object *)
  notified : list (CallbackId * Status);  (* calls of the host's callback *)
  listeners : list (Handle * Props)       (* status listeners, with the props
                                             their closure captured *)
}.

Definition initial_world : World :=
  mkWorld initial_state [] [] 0%nat [] [].

Definition with_state (f : State -> State) (w : World) : World :=
  mkWorld (f (state w)) (calls w) (console w) (nextHandle w) (notified w) (listeners w).

Definition record_call (c : Call) (o : Outcome) (w : World) : World :=
  mkWorld (state w) (calls w ++ [mkEntry c o]) (console w) (nextHandle w)
          (notified w) (listeners w).

Definition record_sound (c : Call) (w : World) : World :=
  mkWorld (state w) (calls w ++ [mkEntry c Resolves]) (console w) (S (nextHandle w))
          (notified w) (listeners w).

Definition record_log (msg : string) (what : Logged) (w : World) : World :=
  mkWorld (state w) (calls w) (console w ++ [(msg, what)]) (nextHandle w)
          (notified w) (listeners w).

Definition record_notify (cb : CallbackId) (status : Status) (w : World) : World :=
  mkWorld (state w) (calls w) (console w) (nextHandle w)
          (notified w ++ [(cb, status)]) (listeners w).

Definition record_listener (h : Handle) (p : Props) (w : World) : World :=
  mkWorld (state w) (calls w) (console w) (nextHandle w)
          (notified w) ((h, p) :: listeners w).

(** One handler running: the world, the outcomes of the promises it will
    await, and the setters queued by [runOnJS]. *)
Record Run : Type := mkRun {
  now : World;
  pending : list Outcome;
  microtasks : list SetAction
}.

Definition in_now (f : World -> World) (r : Run) : Run :=
  mkRun (f (now r)) (pending r) (microtasks r).

(** ** The monad of handlers: state and exceptions *)

Inductive Res (A : Type) : Type :=
| Ok (a : A)
| Throw (e : Exn).

Arguments Ok {A} a.
Arguments Throw {A} e.

Definition M (A : Type) : Type := Run -> Res A * Run.

Definition ret {A : Type} (a : A) : M A := fun r => (Ok a, r).

Definition bind {A B : Type} (m : M A) (k : A -> M B) : M B :=
  fun r =>
    match m r with
    | (Ok a, r') => k a r'
    | (Throw e, r') => (Throw e, r')
    end.

Declare Scope handler_scope.
Delimit Scope handler_scope with handler.
Notation "x <- m ;; k" := (bind m (fun x => k))
  (at level 61, m at next level, right associativity) : handler_scope.
Notation "m ;; k" := (bind m (fun _ => k))
  (at level 61, right associativity) : handler_scope.
Local Open Scope handler_scope.

(** [try { body } catch (e) { handler }]. *)
Definition try_catch (body : M unit) (handler : Exn -> M unit) : M unit :=
  fun r =>
    match body r with
    | (Ok a, r') => (Ok a, r')
    | (Throw e, r') => handler e r'
    end.

(** [try { body } finally { final }]: [final] runs on both exits, and an
    exception of [body] goes on after it. *)
Definition try_finally (body : M unit) (final : M unit) : M unit :=
  fun r =>
    match body r with
    | (Ok a, r') => final r'
    | (Throw e, r') =>
        match final r' with
        | (Ok _, r'') => (Throw e, r'')
        | (Throw e', r'') => (Throw e', r'')
        end
    end.

(** The outcome of the next promise; a promise nobody scripted resolves. *)
Definition next_outcome (r : Run) : Outcome :=
  hd Resolves (pending r).

Definition settle (f : World -> World) (r : Run) : Run :=
  mkRun (f (now r)) (tl (pending r)) (microtasks r).

(** [await c]: the call is made; a rejected promise throws. *)
Definition await (c : Call) : M unit :=
  fun r =>
    match next_outcome r with
    | Resolves => (Ok tt, settle (record_call c Resolves) r)
    | Rejects => (Throw (Rejected c), settle (record_call c Rejects) r)
    end.

(** A call whose promise is dropped: a rejection is not thrown. *)
Definition fire (c : Call) : M unit :=
  fun r => (Ok tt, settle (record_call c (next_outcome r)) r).

(** [await Audio.Sound.createAsync (source, initialStatus)]. *)
Definition createAsync (uri : string) (shouldPlay isLooping : bool) (volume : Q)
  : M Handle :=
  fun r =>
    let h := nextHandle (now r) in
    let c := CreateAsync h uri shouldPlay isLooping volume in
    match next_outcome r with
    | Resolves => (Ok h, settle (record_sound c) r)
    | Rejects => (Throw (Rejected c), settle (record_call c Rejects) r)
    end.

Definition set (a : SetAction) : M unit :=
  fun r => (Ok tt, in_now (with_state (apply_set a)) r).

Definition setSound v := set (SetSound v).
Definition setIsPlaying v := set (SetIsPlaying v).
Definition setIsLoading v := set (SetIsLoading v).
Definition setDuration v := set (SetDuration v).
Definition setPosition v := set (SetPosition v).
Definition setError v := set (SetError v).

(** [runOnJS (setter) (v)]: the setter is queued and runs once the current
    synchronous code is over. *)
Definition runOnJS (a : SetAction) : M unit :=
  fun r => (Ok tt, mkRun (now r) (pending r) (microtasks r ++ [a])).

Definition console_error (msg : string) (what : Logged) : M unit :=
  fun r => (Ok tt, in_now (record_log msg what) r).

(** Calling the host's callback with a status object. *)
Definition notify (cb : CallbackId) (status : Status) : M unit :=
  fun r => (Ok tt, in_now (record_notify cb status) r).

(** [newSound.setOnPlaybackStatusUpdate (listener)]: the listener is a
    closure of the render that runs [loadAudio], so it keeps that render's
    props. *)
Definition setOnPlaybackStatusUpdate (h : Handle) (p : Props) : M unit :=
  fun r => (Ok tt, in_now (record_listener h p) r).

(** The queued setters run in order. *)
Definition flush (r : Run) : World :=
  with_state (fun s => fold_left (fun s a => apply_set a s) (microtasks r) s) (now r).

(** ** The component

    Every handler takes the props [p] and the state [s] of the render that
    created it: what it reads from [s] is what that render saw, whatever the
    setters have written since.  The animation values ([playButtonScale],
    [waveAnimation], [progressAnimation], [loadingRotation]) only drive
    the drawing and are left out. *)

(** The body of the mount effect: the audio session is configured. *)
Definition configureAudio : M unit :=
  try_catch
    (await SetAudioModeAsync)
    (fun e => console_error "Error configuring audio:" (LogExn e)).

(** The cleanup returned by the mount effect. *)
Definition cleanup (s : State) : M unit :=
  match sound s with
  | Some snd => fire (UnloadAsync snd)
  | None => ret tt
  end.

(** The listener [loadAudio] installs on the new sound. *)
Definition statusListener (p : Props) (status : Status) : M unit :=
  match status with
  | StatusSuccess st =>
      setDuration (JS.or_null (durationMillis st)) ;;
      setPosition (JS.or_null (Some (positionMillis st))) ;;
      setIsPlaying (Platform.isPlaying st) ;;
      match onPlaybackStatusUpdate p with
      | Some cb => notify cb status
      | None => ret tt
      end ;;
      if didJustFinish st
      then runOnJS (SetIsPlaying false) ;; runOnJS (SetPosition (Some 0))
      else ret tt
  | StatusError err =>
      if JS.truthy_str err
      then runOnJS (SetError (Some "Error loading audio")) ;;
           console_error "Audio playback error:" (LogText err)
      else ret tt
  end.

Definition loadAudio (p : Props) (s : State) : M unit :=
  try_finally
    (try_catch
       (setIsLoading true ;;
        setError None ;;
        match sound s with
        | Some old => await (UnloadAsync old) ;; setSound None
        | None => ret tt
        end ;;
        newSound <- createAsync (fileUrl p) false false 1 ;;
        setSound (Some newSound) ;;
        setOnPlaybackStatusUpdate newSound p)
       (fun e =>
          setError (Some "Gagal memuat file audio") ;;
          console_error "Error loading audio:" (LogExn e)))
    (setIsLoading false).

Definition playPause (p : Props) (s : State) : M unit :=
  try_catch
    match sound s with
    | None => loadAudio p s
    | Some snd =>
        if isPlaying s
        then await (PauseAsync snd)
        else await (PlayAsync snd)
    end
    (fun e =>
       setError (Some "Gagal memutar audio") ;;
       console_error "Error playing audio:" (LogExn e)).

Definition restart (s : State) : M unit :=
  try_catch
    match sound s with
    | Some snd =>
        await (SetPositionAsync snd 0) ;;
        if negb (isPlaying s) then await (PlayAsync snd) else ret tt
    | None => ret tt
    end
    (fun e =>
       setError (Some "Gagal mengulang audio") ;;
       console_error "Error restarting audio:" (LogExn e)).

Definition seekTo (s : State) (percentage : Q) : M unit :=
  try_catch
    match sound s, duration s with
    | Some snd, Some d =>
        if JS.truthy d
        then
          let newPosition := d * percentage in
          await (SetPositionAsync snd newPosition)
        else ret tt
    | _, _ => ret tt
    end
    (fun e => console_error "Error seeking audio:" (LogExn e)).

(** The progress track: [width] is the window width read once when the
    module is loaded. *)
Definition progressBarWidth (width : Q) : Q := width - 64.

Definition offsetOf (width locationX : Q) : Q :=
  let percentage := locationX / progressBarWidth width in
  JS.max 0 (JS.min 1 percentage).

Definition onProgressPress (width : Q) (s : State) (locationX : Q) : M unit :=
  seekTo s (offsetOf width locationX).

(** ** The mounted widget and the events it receives *)

Record Widget : Type := mkWidget {
  props : Props;
  windowWidth : Q;
  mounted : bool;
  effectRender : State;   (* the state seen by the render whose mount effect
                             (dependency list []) is kept *)
  world : World
}.

(** A handler runs to its end with the promise outcomes [sc]; then the
    queued setters run. *)
Definition run (sc : list Outcome) (m : M unit) (w : World) : World :=
  flush (snd (m (mkRun w sc []))).

Definition in_world (f : World -> World) (x : Widget) : Widget :=
  mkWidget (props x) (windowWidth x) (mounted x) (effectRender x) (f (world x)).

(** Mounting: the first render sees the initial state; its effect runs, and
    its cleanup is the one React keeps until unmount. *)
Definition mount (p : Props) (width : Q) (sc : list Outcome) : Widget :=
  mkWidget p width true initial_state (run sc configureAudio initial_world).

Inductive Event : Type :=
| PressPlay (sc : list Outcome)
| PressRestart (sc : list Outcome)
| TapProgress (locationX : Q) (sc : list Outcome)
| StatusUpdate (h : Handle) (status : Status)
| HostRender (p : Props)
| Unmount (sc : list Outcome).

Fixpoint listener_of (h : Handle) (ls : list (Handle * Props)) : option Props :=
  match ls with
  | [] => None
  | (h', p) :: rest => if Nat.eqb h' h then Some p else listener_of h rest
  end.

(** A listener that runs after the unmount: the setters of an unmounted
    component change nothing, while the console and the host's callback are
    reached as before. *)
Definition run_detached (m : M unit) (w : World) : World :=
  with_state (fun _ => state w) (run [] m w).

(** One event, handled to its end before the next.  The handlers in force
    are those of the latest render, which saw the current state; a disabled
    or absent control receives no press.  After the unmount there is no
    control left to press, but nothing has removed the status listener and
    the sound was not unloaded: a status update still runs the listener. *)
Definition dispatch (x : Widget) (ev : Event) : Widget :=
  if negb (mounted x) then
    match ev with
    | StatusUpdate h status =>
        match listener_of h (listeners (world x)) with
        | Some p => in_world (run_detached (statusListener p status)) x
        | None => x
        end
    | _ => x
    end
  else
    let s := state (world x) in
    match ev with
    | PressPlay sc =>
        if isLoading s then x
        else in_world (run sc (playPause (props x) s)) x
    | PressRestart sc =>
        match sound s with
        | None => x
        | Some _ => in_world (run sc (restart s)) x
        end
    | TapProgress locationX sc =>
        if JS.truthy_opt (duration s)
        then in_world (run sc (onProgressPress (windowWidth x) s locationX)) x
        else x
    | StatusUpdate h status =>
        match listener_of h (listeners (world x)) with
        | Some p => in_world (run [] (statusListener p status)) x
        | None => x
        end
    | HostRender p =>
        mkWidget p (windowWidth x) (mounted x) (effectRender x) (world x)
    | Unmount sc =>
        mkWidget (props x) (windowWidth x) false (effectRender x)
                 (run sc (cleanup (effectRender x)) (world x))
    end.

(** The widget states that can be reached from a mount. *)
Inductive reachable : Widget -> Prop :=
| reach_mount (p : Props) (width : Q) (sc : list Outcome) :
    reachable (mount p width sc)
| reach_step (x : Widget) (ev : Event) :
    reachable x -> reachable (dispatch x ev).

(** ** Scenarios used as concrete instances *)

Definition host : Props :=
  mkProps "https://example.org/setoran.mp3" (Some "Setoran") (Some 7%nat).

(** Just mounted: nothing is loaded. *)
Definition fresh_widget : Widget := mount host 400 [].

(** After a first press of play whose load succeeds. *)
Definition loaded_widget : Widget := dispatch fresh_widget (PressPlay []).

(** After a second press and a status report: playing, one second into a
    five second recording. *)
Definition playing_status : Status :=
  StatusSuccess (mkLoaded (Some 5000) 1000 true false).

Definition playing_widget : Widget :=
  dispatch (dispatch loaded_widget (PressPlay [])) (StatusUpdate 0%nat playing_status).

(** The status the platform sends when the recording has played to its
    end. *)
Definition finished_status : LoadedStatus := mkLoaded (Some 5000) 5000 false true.

(** A status that is not a loaded one. *)
Definition failure_status : Status := StatusError (Some "decoder failure").

Definition is_unload (c : Call) : bool :=
  match c with
  | UnloadAsync _ => true
  | _ => false
  end.

(** The stored handle names a sound that [createAsync] delivered. *)
Definition handle_created (w : World) : Prop :=
  forall h : Handle,
    sound (state w) = Some h ->
    exists uri : string,
      In (mkEntry (CreateAsync h uri false false 1) Resolves) (calls w).

(** Two decimal digits, as the clock shows seconds. *)
Definition digit (d : Z) : ascii := ascii_of_nat (48 + Z.to_nat d).

Definition two_digits (r : Z) : string :=
  String (digit (r / 10)) (String (digit (r mod 10)) EmptyString).

(** Other props the host may render the widget with. *)
Definition other_host : Props := mkProps "https://example.org/other.mp3" None None.

(** Loaded, a second press, then unmounted. *)
Definition unmounted_widget : Widget :=
  dispatch (dispatch loaded_widget (PressPlay [])) (Unmount []).

(** Loaded while the host gave no callback; the host then renders the
    widget again, this time with one. *)
Definition late_callback_widget : Widget :=
  dispatch (dispatch (mount other_host 400 []) (PressPlay [])) (HostRender host).

(** Playing, then a press of pause that the platform rejects. *)
Definition failed_pause_widget : Widget := dispatch playing_widget (PressPlay [Rejects]).

(** ** What the render shows, and the progress effect *)

(** The time text: [formatTime (position)], [" / "], [formatTime (duration)]. *)
Definition timeText (s : State) : string :=
  formatTime (position s) ++ " / " ++ formatTime (duration s).

(** The effect on [position] and [duration]: the value [progressAnimation]
    is sent to, when the effect sends it anywhere. *)
Definition progressEffect (s : State) : option Q :=
  match duration s, position s with
  | Some d, Some pos =>
      if JS.truthy d && JS.truthy pos then Some (pos / d) else None
  | _, _ => None
  end.

(** The error strings the component can display. *)
Definition error_messages : list string :=
  [ "Gagal memuat file audio"; "Gagal memutar audio";
    "Gagal mengulang audio"; "Error loading audio" ].

Definition is_message (e : option string) : bool :=
  match e with
  | None => true
  | Some m => existsb (String.eqb m) error_messages
  end.

(** ** The root layout *)
Module Layout.

(** The calls made to the native splash screen module. *)
Inductive SplashCall : Type := PreventAutoHideAsync | HideAsync.

(** What [RootLayout] returns: the custom splash screen, or the providers
    around the navigation stack and the status bar. *)
Inductive Element : Type :=
| SplashScreen
| Shell (headerShown : bool) (screens : list string)
        (statusBarStyle : string) (translucent : bool).

Record Root : Type := mkRoot {
  showCustomSplash : bool;
  splashCalls : list SplashCall
}.

(** Loading the module calls [preventAutoHideAsync]. *)
Definition loaded : Root := mkRoot true [PreventAutoHideAsync].

(** The mount effect (dependency list []) hides the native splash screen. *)
Definition mountEffect (r : Root) : Root :=
  mkRoot (showCustomSplash r) (splashCalls r ++ [HideAsync]).

Definition handleSplashComplete (r : Root) : Root :=
  mkRoot false (splashCalls r).

(** [os] is [Platform.OS]. *)
Definition RootLayout (os : string) (r : Root) : Element :=
  if showCustomSplash r then SplashScreen
  else Shell false ["(auth)"; "(tabs)"; "+not-found"] "light" (String.eqb os "android").

Inductive Event : Type :=
| AnimationComplete   (* the splash screen calls [onAnimationComplete] *)
| Rerender.           (* the host renders the layout again *)

Definition step (r : Root) (ev : Event) : Root :=
  match ev with
  | AnimationComplete => handleSplashComplete r
  | Rerender => r
  end.

Definition mounted_then (evs : list Event) : Root :=
  fold_left step evs (mountEffect loaded).

Definition is_complete (ev : Event) : bool :=
  match ev with
  | AnimationComplete => true
  | Rerender => false
  end.

End Layout.

(** * Properties *)

Local Open Scope list_scope.

(** ** Bookkeeping *)

Ltac open_widget x :=
  let p := fresh "p" in
  let width := fresh "width" in
  let m := fresh "m" in
  let er := fresh "er" in
  let s := fresh "s" in
  destruct x as [p width m er [s ? ? ? ? ?]]; destruct s; cbn in *.

Ltac by_outcome sc :=
  let o := fresh "o" in
  destruct sc as [|o sc]; [|destruct o]; cbn.

Lemma truthy_false_iff (x : Q) : JS.truthy x = false <-> x == 0.
Proof.
  unfold JS.truthy, Qeq. cbn. rewrite Z.mul_1_r, negb_false_iff, Z.eqb_eq.
  reflexivity.
Qed.

Lemma truthy_true_iff (x : Q) : JS.truthy x = true <-> ~ x == 0.
Proof.
  rewrite <- truthy_false_iff. destruct (JS.truthy x); split; intros H;
    congruence.
Qed.

Lemma detached_listener (p : Props) (status : Status) (w : World) :
  state (run_detached (statusListener p status) w) = state w
  /\ calls (run_detached (statusListener p status) w) = calls w.
Proof.
  split; [reflexivity|].
  unfold run_detached, run, statusListener.
  destruct status as [st | err]; cbn.
  - destruct (onPlaybackStatusUpdate p), (didJustFinish st); reflexivity.
  - destruct (JS.truthy_str err); reflexivity.
Qed.

Lemma sound_after_snoc (trace : list Entry) (e : Entry) (h : Handle) :
  sound_after (trace ++ [e]) h = touch h e (sound_after trace h).
Proof.
  unfold sound_after, sound_from. rewrite fold_left_app. reflexivity.
Qed.

Lemma sound_after_created (trace : list Entry) (h : Handle) (uri : string)
      (shouldPlay isLooping : bool) (volume : Q) :
  sound_after (trace ++ [mkEntry (CreateAsync h uri shouldPlay isLooping volume) Resolves]) h
  = mkSound true shouldPlay 0.
Proof.
  rewrite sound_after_snoc. unfold touch; cbn. now rewrite Nat.eqb_refl.
Qed.

Lemma seek_keeps_playing (trace : list Entry) (h : Handle) (pos : Q) (o : Outcome) :
  playing (sound_after (trace ++ [mkEntry (SetPositionAsync h pos) o]) h)
  = playing (sound_after trace h).
Proof.
  rewrite sound_after_snoc. unfold touch; cbn.
  destruct o; [|reflexivity]. rewrite Nat.eqb_refl; cbn.
  destruct (loaded (sound_after trace h)) eqn:E; cbn; reflexivity.
Qed.

Lemma seek_sets_position (trace : list Entry) (h : Handle) (pos : Q) :
  loaded (sound_after trace h) = true ->
  at_position (sound_after (trace ++ [mkEntry (SetPositionAsync h pos) Resolves]) h) = pos.
Proof.
  intros Hl. rewrite sound_after_snoc. unfold touch; cbn.
  rewrite Nat.eqb_refl, Hl. reflexivity.
Qed.

Lemma play_keeps_position (trace : list Entry) (h : Handle) (o : Outcome) :
  at_position (sound_after (trace ++ [mkEntry (PlayAsync h) o]) h)
  = at_position (sound_after trace h).
Proof.
  rewrite sound_after_snoc. unfold touch; cbn.
  destruct o; [|reflexivity]. rewrite Nat.eqb_refl; cbn.
  destruct (loaded (sound_after trace h)); reflexivity.
Qed.

Lemma app_cons_snoc {A : Type} (l : list A) (a b : A) :
  l ++ [a; b] = (l ++ [a]) ++ [b].
Proof. now rewrite <- app_assoc. Qed.

(** ** Play / pause with a loaded resource *)

(** C8: a press of the play/pause button while a resource is loaded and no
    load is in progress makes exactly one platform call: [pauseAsync] when
    the playing flag is set, [playAsync] when it is not. *)
Theorem playPause_exactly_one_call :
  forall (x : Widget) (sc : list Outcome) (snd : Handle),
    mounted x = true ->
    sound (state (world x)) = Some snd ->
    isLoading (state (world x)) = false ->
    calls (world (dispatch x (PressPlay sc)))
    = calls (world x)
        ++ [mkEntry (if isPlaying (state (world x)) then PauseAsync snd else PlayAsync snd)
                    (hd Resolves sc)].
Proof.
  intros x sc snd Hm Hs Hl. open_widget x. subst.
  unfold run, playPause; cbn.
  destruct isPlaying0; unfold try_catch, await, next_outcome; cbn;
    by_outcome sc; reflexivity.
Qed.

Lemma playPause_exactly_one_call_witness :
  calls (world (dispatch playing_widget (PressPlay [])))
  = calls (world playing_widget) ++ [mkEntry (PauseAsync 0%nat) Resolves].
Proof.
  apply (playPause_exactly_one_call playing_widget [] 0%nat); reflexivity.
Defined.

(** ** Play with nothing loaded *)

(** C2 (as amended): a press of the play button while no resource is loaded
    performs a load only.  Exactly one platform call is made, [createAsync]
    with [shouldPlay] false; the playing flag is left as it was; when the
    load succeeds the handle is stored and the sound is loaded but not
    playing. *)
Theorem playPause_unloaded_loads_only :
  forall (x : Widget) (sc : list Outcome),
    mounted x = true ->
    sound (state (world x)) = None ->
    isLoading (state (world x)) = false ->
    let h := nextHandle (world x) in
    let x' := dispatch x (PressPlay sc) in
    calls (world x')
    = calls (world x)
        ++ [mkEntry (CreateAsync h (fileUrl (props x)) false false 1) (hd Resolves sc)]
    /\ isPlaying (state (world x')) = isPlaying (state (world x))
    /\ isLoading (state (world x')) = false
    /\ (hd Resolves sc = Resolves ->
        sound (state (world x')) = Some h
        /\ sound_after (calls (world x')) h = mkSound true false 0).
Proof.
  intros x sc Hm Hs Hl. open_widget x. subst.
  unfold run, playPause, loadAudio; cbn.
  unfold try_catch, try_finally, bind, createAsync, next_outcome; cbn.
  by_outcome sc; repeat split; try reflexivity; try discriminate.
  all: apply sound_after_created.
Qed.

Lemma playPause_unloaded_loads_only_witness :
  calls (world loaded_widget)
  = calls (world fresh_widget)
      ++ [mkEntry (CreateAsync 0%nat (fileUrl host) false false 1) Resolves]
  /\ sound (state (world loaded_widget)) = Some 0%nat
  /\ sound_after (calls (world loaded_widget)) 0%nat = mkSound true false 0.
Proof.
  destruct (playPause_unloaded_loads_only fresh_widget [] eq_refl eq_refl eq_refl)
    as (Hcalls & _ & _ & Hok).
  destruct (Hok eq_refl) as (Hsound & Hafter).
  exact (conj Hcalls (conj Hsound Hafter)).
Defined.

(** C2 (as stated) fails: after the first press of play on a fresh widget
    the load has succeeded, and nothing plays: no play call was made, the
    sound is not playing and the playing flag is down. *)
Lemma first_press_does_not_play :
  sound (state (world loaded_widget)) = Some 0%nat
  /\ existsb is_playback_call (issued (calls (world loaded_widget))) = false
  /\ playing (sound_after (calls (world loaded_widget)) 0%nat) = false
  /\ isPlaying (state (world loaded_widget)) = false.
Proof. repeat split. Qed.

(** ** Restart *)

(** C3: a press of the restart button first seeks to position zero.  When
    the playing flag is set nothing else is asked of the platform, so a
    sound that was playing goes on playing, from zero; when it is not set
    and the seek went through, [playAsync] follows. *)
Theorem restart_seeks_to_zero :
  forall (x : Widget) (sc : list Outcome) (snd : Handle),
    mounted x = true ->
    sound (state (world x)) = Some snd ->
    let s := state (world x) in
    let before := calls (world x) in
    let after := calls (world (dispatch x (PressRestart sc))) in
    after
    = before
        ++ mkEntry (SetPositionAsync snd 0) (hd Resolves sc)
        :: match hd Resolves sc, isPlaying s with
           | Resolves, false => [mkEntry (PlayAsync snd) (hd Resolves (tl sc))]
           | _, _ => []
           end
    /\ (isPlaying s = true ->
        playing (sound_after before snd) = true ->
        playing (sound_after after snd) = true)
    /\ (hd Resolves sc = Resolves ->
        loaded (sound_after before snd) = true ->
        at_position (sound_after after snd) = 0).
Proof.
  intros x sc snd Hm Hs. open_widget x. subst.
  unfold run, restart; cbn.
  unfold try_catch, bind, await, next_outcome; cbn.
  destruct isPlaying0; by_outcome sc.
  all: try (by_outcome sc).
  all: repeat split; intros; try discriminate.
  all: rewrite ?app_cons_snoc, ?play_keeps_position, ?seek_keeps_playing;
    try assumption; try reflexivity; try (now apply seek_sets_position).
Qed.

Lemma restart_seeks_to_zero_witness :
  calls (world (dispatch playing_widget (PressRestart [])))
  = calls (world playing_widget) ++ [mkEntry (SetPositionAsync 0%nat 0) Resolves]
  /\ playing (sound_after (calls (world (dispatch playing_widget (PressRestart []))))
                          0%nat) = true.
Proof.
  destruct (restart_seeks_to_zero playing_widget [] 0%nat eq_refl eq_refl)
    as (Hcalls & Hplaying & _).
  exact (conj Hcalls (Hplaying eq_refl eq_refl)).
Defined.

(** ** Seeking from the progress track *)

Lemma offsetOf_bounds (width locationX : Q) :
  0 <= offsetOf width locationX <= 1.
Proof.
  unfold offsetOf, JS.max, JS.min. split.
  - apply Q.le_max_l.
  - apply Q.max_lub; [discriminate|]. apply Q.le_min_l.
Qed.

(** C6: a tap on the progress track at [locationX], with a sound loaded and
    a known non-zero duration [d] (and a track of non-zero width, so that
    the quotient is a number), makes one platform call, a seek to
    [d * offset], where [offset] is [locationX / track width] brought back
    into [0, 1]; the target lies in [0, d], [d] being a length of time. *)
Theorem tap_seeks_within_duration :
  forall (x : Widget) (locationX : Q) (sc : list Outcome) (snd : Handle) (d : Q),
    mounted x = true ->
    sound (state (world x)) = Some snd ->
    duration (state (world x)) = Some d ->
    ~ d == 0 ->
    ~ progressBarWidth (windowWidth x) == 0 ->
    let fraction := locationX / progressBarWidth (windowWidth x) in
    let offset := offsetOf (windowWidth x) locationX in
    calls (world (dispatch x (TapProgress locationX sc)))
    = calls (world x) ++ [mkEntry (SetPositionAsync snd (d * offset)) (hd Resolves sc)]
    /\ (fraction <= 0 -> offset == 0)
    /\ (0 <= fraction <= 1 -> offset == fraction)
    /\ (1 <= fraction -> offset == 1)
    /\ 0 <= offset <= 1
    /\ (0 <= d -> 0 <= d * offset <= d).
Proof.
  intros x locationX sc snd d Hm Hs Hd Hnz Hw fraction offset.
  assert (Hb : 0 <= offset <= 1) by apply offsetOf_bounds.
  assert (Htruthy : JS.truthy d = true) by (apply truthy_true_iff; exact Hnz).
  split; [|split; [|split; [|split; [|split]]]].
  - subst offset.
    unfold dispatch. rewrite Hm, Hd. cbn [negb JS.truthy_opt]. rewrite Htruthy.
    unfold in_world, run, onProgressPress, seekTo, try_catch.
    rewrite Hs, Hd, Htruthy.
    unfold await, next_outcome; cbn.
    by_outcome sc; reflexivity.
  - intros Hf. subst offset. unfold offsetOf, JS.max, JS.min. fold fraction.
    rewrite (Q.min_r 1 fraction) by (apply Qle_trans with 0; [exact Hf | discriminate]).
    apply Q.max_l. exact Hf.
  - intros [Hf0 Hf1]. subst offset. unfold offsetOf, JS.max, JS.min. fold fraction.
    rewrite (Q.min_r 1 fraction) by exact Hf1.
    apply Q.max_r. exact Hf0.
  - intros Hf. subst offset. unfold offsetOf, JS.max, JS.min. fold fraction.
    rewrite (Q.min_l 1 fraction) by exact Hf.
    apply Q.max_r. discriminate.
  - exact Hb.
  - intros Hd0. destruct Hb as [Hb0 Hb1]. split.
    + apply Qmult_le_0_compat; [exact Hd0 | exact Hb0].
    + assert (Hpos : 0 < d).
      { apply Qle_lteq in Hd0. destruct Hd0 as [Hlt | Heq]; [exact Hlt|].
        exfalso. apply Hnz. symmetry. exact Heq. }
      setoid_replace d with (d * 1) at 2 by ring.
      apply Qmult_le_l; assumption.
Qed.

Lemma tap_seeks_within_duration_witness :
  calls (world (dispatch playing_widget (TapProgress 84 [])))
  = calls (world playing_widget)
      ++ [mkEntry (SetPositionAsync 0%nat (5000 * offsetOf 400 84)) Resolves]
  /\ offsetOf 400 84 == 1 # 4
  /\ 0 <= 5000 * offsetOf 400 84 <= 5000.
Proof.
  assert (Hwidth : ~ progressBarWidth (windowWidth playing_widget) == 0)
    by (intros H; discriminate H).
  assert (Hduration : ~ 5000 == 0) by (intros H; discriminate H).
  destruct (tap_seeks_within_duration playing_widget 84 [] 0%nat 5000
              eq_refl eq_refl eq_refl Hduration Hwidth)
    as (Hcalls & _ & Hmid & _ & _ & Htarget).
  refine (conj Hcalls (conj _ (Htarget _))); [|discriminate].
  rewrite Hmid; [reflexivity | split; discriminate].
Defined.

(** ** Playback status updates *)

(** C7: a status update whose [didJustFinish] flag is set leaves the
    displayed position at zero and the playing flag down. *)
Theorem finished_status_resets :
  forall (x : Widget) (h : Handle) (p : Props) (st : LoadedStatus),
    mounted x = true ->
    listener_of h (listeners (world x)) = Some p ->
    didJustFinish st = true ->
    let x' := dispatch x (StatusUpdate h (StatusSuccess st)) in
    position (state (world x')) = Some 0
    /\ isPlaying (state (world x')) = false.
Proof.
  intros x h p st Hm Hl Hfin.
  unfold dispatch. rewrite Hm, Hl. cbn [negb].
  unfold in_world, run, statusListener. rewrite Hfin.
  destruct (onPlaybackStatusUpdate p); cbn; split; reflexivity.
Qed.

Lemma finished_status_resets_witness :
  position (state (world (dispatch playing_widget
                            (StatusUpdate 0%nat (StatusSuccess finished_status)))))
  = Some 0
  /\ isPlaying (state (world (dispatch playing_widget
                                (StatusUpdate 0%nat (StatusSuccess finished_status)))))
     = false.
Proof.
  exact (finished_status_resets playing_widget 0%nat host finished_status
           eq_refl eq_refl eq_refl).
Defined.

(** C5 (as amended): when the platform delivers a status to the listener
    installed on the sound, whether the widget is still mounted or not, and
    the host supplies a callback that is the one the listener's render saw
    (the host has not changed it since the audio was loaded), the callback
    is called exactly once with that very status if the status is a loaded
    one, and is not called if it is not. *)
Theorem callback_called_when_loaded :
  forall (x : Widget) (h : Handle) (p : Props) (cb : CallbackId) (status : Status),
    listener_of h (listeners (world x)) = Some p ->
    onPlaybackStatusUpdate p = Some cb ->
    onPlaybackStatusUpdate (props x) = Some cb ->
    notified (world (dispatch x (StatusUpdate h status)))
    = notified (world x) ++ (if isLoaded status then [(cb, status)] else []).
Proof.
  intros x h p cb status Hl Hcb _.
  unfold dispatch. rewrite Hl.
  destruct (mounted x); cbn [negb];
    unfold in_world, run_detached, run, statusListener; rewrite Hcb;
    destruct status as [st | err]; cbn.
  - destruct (didJustFinish st); reflexivity.
  - destruct (JS.truthy_str err); cbn; now rewrite app_nil_r.
  - destruct (didJustFinish st); reflexivity.
  - destruct (JS.truthy_str err); cbn; now rewrite app_nil_r.
Qed.

Lemma callback_called_when_loaded_witness :
  notified (world (dispatch (dispatch loaded_widget (PressPlay []))
                            (StatusUpdate 0%nat playing_status)))
  = [(7%nat, playing_status)]
  /\ notified (world (dispatch unmounted_widget (StatusUpdate 0%nat playing_status)))
     = [(7%nat, playing_status)].
Proof.
  split.
  - exact (callback_called_when_loaded (dispatch loaded_widget (PressPlay []))
             0%nat host 7%nat playing_status eq_refl eq_refl eq_refl).
  - exact (callback_called_when_loaded unmounted_widget
             0%nat host 7%nat playing_status eq_refl eq_refl eq_refl).
Defined.

(** C5 (as stated) fails twice over.  The host supplied a callback, the
    platform delivers a status that is not a loaded one, and the callback is
    not called.  And a callback the host supplies only after the audio was
    loaded is not called for a loaded status either: the listener holds the
    props of the render that loaded the audio. *)
Lemma callback_skipped_when_not_loaded :
  (onPlaybackStatusUpdate (props loaded_widget) = Some 7%nat
   /\ listener_of 0%nat (listeners (world loaded_widget)) = Some host
   /\ isLoaded failure_status = false
   /\ notified (world (dispatch loaded_widget (StatusUpdate 0%nat failure_status))) = [])
  /\ (onPlaybackStatusUpdate (props late_callback_widget) = Some 7%nat
      /\ isLoaded playing_status = true
      /\ notified (world (dispatch late_callback_widget
                                   (StatusUpdate 0%nat playing_status))) = []).
Proof. repeat split. Qed.

(** ** Teardown *)

(** The cleanup React keeps is the one of the first render, which saw no
    sound. *)
Lemma reachable_effectRender (x : Widget) :
  reachable x -> effectRender x = initial_state.
Proof.
  induction 1 as [p width sc | x ev Hx IH]; [reflexivity|].
  unfold dispatch. destruct (mounted x); cbn [negb];
    [|destruct ev; try exact IH; destruct (listener_of _ _); exact IH].
  destruct ev; cbn.
  - destruct (isLoading _); exact IH.
  - destruct (sound _); exact IH.
  - destruct (JS.truthy_opt _); exact IH.
  - destruct (listener_of _ _); exact IH.
  - exact IH.
  - exact IH.
Qed.

(** Unmounting never asks the platform for anything. *)
Lemma unmount_issues_no_call (x : Widget) (sc : list Outcome) :
  reachable x ->
  calls (world (dispatch x (Unmount sc))) = calls (world x).
Proof.
  intros Hx. unfold dispatch. destruct (mounted x); cbn [negb]; [|reflexivity].
  rewrite (reachable_effectRender x Hx). reflexivity.
Qed.

(** C1 fails on the code: a widget that has loaded a sound is unmounted;
    the cleanup makes no call at all, so no [unloadAsync], and the sound is
    still loaded afterwards. *)
Theorem unmount_leaves_sound_loaded :
  let x := dispatch loaded_widget (Unmount []) in
  sound (state (world loaded_widget)) = Some 0%nat
  /\ mounted x = false
  /\ calls (world x) = calls (world loaded_widget)
  /\ existsb is_unload (issued (calls (world x))) = false
  /\ loaded (sound_after (calls (world x)) 0%nat) = true.
Proof. repeat split. Qed.

(** ** Failures *)

(** No handler lets an exception out. *)
Lemma handlers_never_throw (p : Props) (s : State) (width k : Q) (r : Run) :
  fst (playPause p s r) = Ok tt
  /\ fst (restart s r) = Ok tt
  /\ fst (onProgressPress width s k r) = Ok tt.
Proof.
  destruct r as [w pend mt]. destruct s as [snd pl ld du po er].
  unfold playPause, restart, onProgressPress, seekTo, loadAudio,
    try_catch, try_finally, bind, await, createAsync, next_outcome.
  repeat split; cbn.
  - destruct snd; [destruct pl|]; destruct pend as [|[] pend]; cbn; try reflexivity.
    all: destruct pend as [|[] pend]; reflexivity.
  - destruct snd; [|reflexivity].
    destruct pl; destruct pend as [|[] pend]; cbn; try reflexivity.
    all: destruct pend as [|[] pend]; reflexivity.
  - destruct snd, du as [d|]; try reflexivity.
    destruct (JS.truthy d); [|reflexivity].
    destruct pend as [|[] pend]; reflexivity.
Qed.

(** C4 fails on the code for a seek started from the progress track: the
    seek is rejected, the failure is caught and logged, and the error
    state stays empty, so nothing is displayed.  The same rejected seek
    started from the restart button does set the error string. *)
Theorem seek_failure_is_not_displayed :
  let x := dispatch playing_widget (TapProgress 84 [Rejects]) in
  let target := SetPositionAsync 0%nat (5000 * offsetOf 400 84) in
  calls (world x) = calls (world playing_widget) ++ [mkEntry target Rejects]
  /\ console (world x) = [("Error seeking audio:"%string, LogExn (Rejected target))]
  /\ error (state (world x)) = None
  /\ error (state (world (dispatch playing_widget (PressRestart [Rejects]))))
     = Some "Gagal mengulang audio"%string.
Proof. repeat split. Qed.

(** ** The handle and the load *)

Lemma mount_handle_created (p : Props) (width : Q) (sc : list Outcome) :
  handle_created (world (mount p width sc)).
Proof.
  intros h. unfold mount, run, configureAudio, try_catch, await, next_outcome.
  by_outcome sc; discriminate.
Qed.

Lemma dispatch_handle_created (x : Widget) (ev : Event) :
  handle_created (world x) -> handle_created (world (dispatch x ev)).
Proof.
  intros Hx. unfold dispatch. destruct (mounted x) eqn:Hm; cbn [negb].
  2:{ destruct ev as [sc | sc | locationX sc | h' status | p' | sc]; try exact Hx.
      destruct (listener_of h' (listeners (world x))) as [q|]; [|exact Hx].
      unfold handle_created, in_world. cbn [world].
      destruct (detached_listener q status (world x)) as [-> ->]. exact Hx. }
  destruct x as [p width m er [[snd pl ld du po err] c cons nh nt ls]].
  unfold handle_created in *. cbn in *.
  assert (Hgrow : forall more h,
             snd = Some h ->
             exists uri, In (mkEntry (CreateAsync h uri false false 1) Resolves)
                            (c ++ more)).
  { intros more h E. destruct (Hx h E) as [uri Hin].
    exists uri. apply in_or_app. now left. }
  destruct ev as [sc | sc | locationX sc | h' status | p' | sc]; cbn.
  - destruct ld; [exact Hx|].
    unfold run, playPause, loadAudio, try_catch, try_finally, bind,
      await, createAsync, next_outcome.
    destruct snd as [h0|]; [destruct pl|]; by_outcome sc; intros h E;
      try discriminate; try (apply Hgrow; exact E).
    all: injection E as <-; exists (fileUrl p); apply in_or_app; right; now left.
  - destruct snd as [h0|]; [|exact Hx].
    unfold run, restart, try_catch, bind, await, next_outcome.
    destruct pl; by_outcome sc; try (by_outcome sc); intros h E;
      try (apply Hgrow; exact E).
    all: rewrite <- app_assoc; apply Hgrow; exact E.
  - destruct du as [d|]; cbn; [|exact Hx].
    destruct (JS.truthy d) eqn:Ht; [|exact Hx].
    unfold run, onProgressPress, seekTo, try_catch, await, next_outcome.
    destruct snd as [h0|]; cbn; rewrite ?Ht; [|intros h E; discriminate].
    by_outcome sc; intros h E; apply Hgrow; exact E.
  - destruct (listener_of h' ls) as [q|]; [|exact Hx].
    unfold run, statusListener.
    destruct status as [st | e]; cbn.
    + destruct (onPlaybackStatusUpdate q), (didJustFinish st); cbn; exact Hx.
    + destruct (JS.truthy_str e); cbn; exact Hx.
  - exact Hx.
  - unfold run, cleanup. destruct (sound er) as [old|]; cbn; [|exact Hx].
    intros h E. apply Hgrow; exact E.
Qed.

(** C9: in every reachable state of the widget a stored handle is one that
    a [createAsync] call delivered, with its promise resolved; and a press
    of play that starts a load whose [createAsync] is rejected ends with no
    handle stored and the error string set. *)
Theorem handle_only_after_successful_load :
  forall x : Widget,
    reachable x ->
    (forall h : Handle,
        sound (state (world x)) = Some h ->
        exists uri : string,
          In (mkEntry (CreateAsync h uri false false 1) Resolves) (calls (world x)))
    /\ (forall sc : list Outcome,
           mounted x = true ->
           isLoading (state (world x)) = false ->
           sound (state (world x)) = None ->
           hd Resolves sc = Rejects ->
           let x' := dispatch x (PressPlay sc) in
           sound (state (world x')) = None
           /\ error (state (world x')) = Some "Gagal memuat file audio"%string
           /\ isLoading (state (world x')) = false).
Proof.
  intros x Hx. split.
  - change (handle_created (world x)).
    induction Hx as [p width sc | x ev Hx IH].
    + apply mount_handle_created.
    + apply dispatch_handle_created, IH.
  - clear Hx. intros sc Hm Hl Hs Hsc. open_widget x. subst.
    destruct sc as [|[] sc]; try discriminate.
    repeat split.
Qed.

Lemma handle_only_after_successful_load_witness :
  (exists uri : string,
      In (mkEntry (CreateAsync 0%nat uri false false 1) Resolves)
         (calls (world loaded_widget)))
  /\ sound (state (world (dispatch fresh_widget (PressPlay [Rejects])))) = None
  /\ error (state (world (dispatch fresh_widget (PressPlay [Rejects]))))
     = Some "Gagal memuat file audio"%string.
Proof.
  split.
  - exact (proj1 (handle_only_after_successful_load loaded_widget
                    (reach_step _ _ (reach_mount host 400 [])))
                 0%nat eq_refl).
  - destruct (proj2 (handle_only_after_successful_load fresh_widget
                       (reach_mount host 400 []))
                    [Rejects] eq_refl eq_refl eq_refl eq_refl) as (Hs & He & _).
    exact (conj Hs He).
Defined.

(** ** The clock *)

Example formatTime_61s : formatTime (Some 61500) = "1:01"%string.
Proof. reflexivity. Qed.

Example formatTime_10min : formatTime (Some 600000) = "10:00"%string.
Proof. reflexivity. Qed.

Example formatTime_below_a_second : formatTime (Some (1 # 2)) = "0:00"%string.
Proof. reflexivity. Qed.

Lemma padStart_small (r : Z) :
  (0 <= r < 60)%Z ->
  JS.padStart 2 "0" (JS.toString r) = two_digits r.
Proof.
  intros Hr. rewrite <- (Z2Nat.id r) by lia.
  assert (Hn : (Z.to_nat r < 60)%nat) by lia.
  revert Hn. generalize (Z.to_nat r) as n. intros n Hn.
  do 60 (destruct n as [|n]; [reflexivity|]). lia.
Qed.

Lemma whole_seconds_nonneg (ms : Q) : 0 < ms -> (0 <= Qfloor (ms / 1000))%Z.
Proof.
  intros Hms. change 0%Z with (Qfloor 0). apply Qfloor_resp_le.
  apply Qle_shift_div_l; [reflexivity|]. rewrite Qmult_0_l.
  apply Qlt_le_weak. exact Hms.
Qed.

(** C10: [formatTime] gives ["0:00"] for a null input and for [0]; for any
    other input it gives the minutes, a colon, and the seconds padded with
    zeros to two characters, where the whole seconds [floor (ms / 1000)]
    are split into [floor (seconds / 60)] minutes and the remainder
    [seconds % 60].  For a positive input the remainder lies in [0, 60), the
    two parts add up to the whole seconds, and the seconds are shown as
    exactly two decimal digits. *)
Theorem formatTime_correct :
  formatTime None = "0:00"%string
  /\ (forall ms : Q, ms == 0 -> formatTime (Some ms) = "0:00"%string)
  /\ (forall ms : Q,
         ~ ms == 0 ->
         let seconds := Qfloor (ms / 1000) in
         formatTime (Some ms)
         = (JS.toString (seconds / 60) ++ ":"
              ++ JS.padStart 2 "0" (JS.toString (Z.rem seconds 60)))%string)
  /\ (forall ms : Q,
         0 < ms ->
         let seconds := Qfloor (ms / 1000) in
         let minutes := (seconds / 60)%Z in
         let remainder := (seconds mod 60)%Z in
         (0 <= minutes)%Z
         /\ (0 <= remainder < 60)%Z
         /\ seconds = (60 * minutes + remainder)%Z
         /\ formatTime (Some ms)
            = (JS.toString minutes ++ ":" ++ two_digits remainder)%string).
Proof.
  split; [reflexivity|]. split; [|split].
  - intros ms Hz. unfold formatTime.
    now rewrite (proj2 (truthy_false_iff ms) Hz).
  - intros ms Hnz seconds. unfold formatTime.
    now rewrite (proj2 (truthy_true_iff ms) Hnz).
  - intros ms Hpos seconds minutes remainder.
    assert (Hsec : (0 <= seconds)%Z) by (apply whole_seconds_nonneg; exact Hpos).
    assert (Hrem : (0 <= remainder < 60)%Z) by (apply Z.mod_pos_bound; lia).
    split; [apply Z.div_pos; lia|]. split; [exact Hrem|].
    split; [apply Z.div_mod; lia|].
    assert (Hnz : ~ ms == 0).
    { intros Hz. rewrite Hz in Hpos. discriminate Hpos. }
    unfold formatTime. rewrite (proj2 (truthy_true_iff ms) Hnz). cbn [negb].
    unfold JS.floor, JS.floor_div, JS.rem. fold seconds.
    rewrite Z.rem_mod_nonneg by lia. fold remainder minutes.
    now rewrite padStart_small.
Qed.

Lemma formatTime_correct_witness :
  formatTime (Some 754321) = ("12" ++ ":" ++ two_digits 34)%string.
Proof.
  destruct formatTime_correct as (_ & _ & _ & Hpos).
  destruct (Hpos 754321 eq_refl) as (_ & _ & _ & Hshown).
  exact Hshown.
Defined.

(** * Further properties of the component *)

(** ** Exceptions and the loading flag *)

(** X1: no handler of the component lets an exception out, whatever the
    state it was created in and whichever platform promises reject: the
    mount effect, its cleanup, the status listener, [loadAudio],
    [playPause], [restart], [seekTo] and the press on the progress track
    all end normally. *)
Theorem no_handler_throws :
  forall (p : Props) (s : State) (status : Status) (width k : Q) (r : Run),
    fst (configureAudio r) = Ok tt
    /\ fst (cleanup s r) = Ok tt
    /\ fst (statusListener p status r) = Ok tt
    /\ fst (loadAudio p s r) = Ok tt
    /\ fst (playPause p s r) = Ok tt
    /\ fst (restart s r) = Ok tt
    /\ fst (seekTo s k r) = Ok tt
    /\ fst (onProgressPress width s k r) = Ok tt.
Proof.
  intros p s status width k r.
  destruct (handlers_never_throw p s width k r) as (Hplay & Hrestart & Htap).
  assert (Hseek : fst (seekTo s k r) = Ok tt).
  { destruct r as [w pend mt]. destruct s as [snd pl ld du po er].
    unfold seekTo, try_catch, await, next_outcome; cbn.
    destruct snd, du as [d|]; try reflexivity.
    destruct (JS.truthy d); [|reflexivity].
    destruct pend as [|[] pend]; reflexivity. }
  repeat split; try assumption.
  - unfold configureAudio, try_catch, await, next_outcome.
    destruct r as [w [|[] pend] mt]; reflexivity.
  - unfold cleanup. destruct (sound s); reflexivity.
  - unfold statusListener. destruct status as [st | err]; cbn.
    + destruct (onPlaybackStatusUpdate p), (didJustFinish st); reflexivity.
    + destruct (JS.truthy_str err); reflexivity.
  - destruct r as [w pend mt]. destruct s as [snd pl ld du po er].
    unfold loadAudio, try_catch, try_finally, bind, await, createAsync, next_outcome.
    cbn. destruct snd; destruct pend as [|[] pend]; cbn; try reflexivity.
    all: destruct pend as [|[] pend]; reflexivity.
Qed.

(** X2: [loadAudio] always ends with the loading flag down, whether the
    load went through, the creation was rejected, or the unloading of a
    previous sound was rejected. *)
Theorem loadAudio_ends_loading :
  forall (p : Props) (s : State) (r : Run),
    isLoading (state (now (snd (loadAudio p s r)))) = false.
Proof.
  intros p s r. destruct r as [w pend mt]. destruct s as [snd pl ld du po er].
  unfold loadAudio, try_catch, try_finally, bind, await, createAsync, next_outcome.
  cbn. destruct snd; destruct pend as [|[] pend]; cbn; try reflexivity.
  all: destruct pend as [|[] pend]; reflexivity.
Qed.

(** X3: [loadAudio] run by a render that holds a previous sound unloads it
    first and creates the replacement only when the unloading went through.
    When both go through the new handle is stored; when the creation is
    rejected no handle is left; when the unloading is rejected the stored
    handle is untouched.  Either rejection sets the error string. *)
Theorem loadAudio_replaces_previous_sound :
  forall (p : Props) (s : State) (r : Run) (old : Handle),
    sound s = Some old ->
    let unloading := hd Resolves (pending r) in
    let creating := hd Resolves (tl (pending r)) in
    let fresh := nextHandle (now r) in
    let r' := snd (loadAudio p s r) in
    calls (now r')
    = calls (now r)
        ++ mkEntry (UnloadAsync old) unloading
        :: match unloading with
           | Resolves => [mkEntry (CreateAsync fresh (fileUrl p) false false 1) creating]
           | Rejects => []
           end
    /\ sound (state (now r'))
       = match unloading, creating with
         | Resolves, Resolves => Some fresh
         | Resolves, Rejects => None
         | Rejects, _ => sound (state (now r))
         end
    /\ error (state (now r'))
       = match unloading, creating with
         | Resolves, Resolves => None
         | _, _ => Some "Gagal memuat file audio"%string
         end.
Proof.
  intros p s r old Hs. destruct r as [w pend mt]. destruct s as [snd pl ld du po er].
  cbn in Hs. subst snd.
  unfold loadAudio, try_catch, try_finally, bind, await, createAsync, next_outcome.
  cbn. destruct pend as [|[] pend]; cbn.
  - rewrite <- app_assoc. repeat split.
  - destruct pend as [|[] pend]; cbn; rewrite <- app_assoc; repeat split.
  - repeat split.
Qed.

Lemma loadAudio_replaces_previous_sound_witness :
  calls (now (snd (loadAudio host (state (world loaded_widget))
                     (mkRun (world loaded_widget) [Resolves; Rejects] []))))
  = calls (world loaded_widget)
      ++ [mkEntry (UnloadAsync 0%nat) Resolves;
          mkEntry (CreateAsync 1%nat (fileUrl host) false false 1) Rejects]
  /\ sound (state (now (snd (loadAudio host (state (world loaded_widget))
                              (mkRun (world loaded_widget) [Resolves; Rejects] [])))))
     = None.
Proof.
  destruct (loadAudio_replaces_previous_sound host (state (world loaded_widget))
              (mkRun (world loaded_widget) [Resolves; Rejects] []) 0%nat eq_refl)
    as (Hcalls & Hsound & _).
  exact (conj Hcalls Hsound).
Defined.

(** X4: mounting makes one platform call, [setAudioModeAsync]; a rejection
    is logged and nothing else: the widget starts from the initial state,
    with no error shown, either way. *)
Theorem mount_configures_audio :
  forall (p : Props) (width : Q) (sc : list Outcome),
    let x := mount p width sc in
    calls (world x) = [mkEntry SetAudioModeAsync (hd Resolves sc)]
    /\ state (world x) = initial_state
    /\ console (world x)
       = match hd Resolves sc with
         | Resolves => []
         | Rejects => [("Error configuring audio:"%string,
                        LogExn (Rejected SetAudioModeAsync))]
         end
    /\ mounted x = true
    /\ props x = p.
Proof.
  intros p width sc.
  unfold mount, run, configureAudio, try_catch, await, next_outcome.
  by_outcome sc; repeat split.
Qed.

(** ** What an event can change *)

(** One event, cell by cell: the handle changes only through a load started
    with no handle; the error is kept, replaced by one of the messages, or
    cleared by such a load; a new duration went through [|| null]; the
    trace grows, and by no [unloadAsync] as long as the kept cleanup is the
    one of the first render. *)
Lemma dispatch_summary (x : Widget) (ev : Event) :
  let s := state (world x) in
  let s' := state (world (dispatch x ev)) in
  (sound s' = sound s
   \/ (sound s = None /\ sound s' = Some (nextHandle (world x))))
  /\ (error s' = error s
      \/ (exists m, error s' = Some m /\ In m error_messages)
      \/ (sound s = None /\ error s' = None))
  /\ (duration s' = duration s \/ exists v, duration s' = JS.or_null v)
  /\ (exists more,
         calls (world (dispatch x ev)) = calls (world x) ++ more
         /\ (effectRender x = initial_state ->
             existsb is_unload (issued more) = false)).
Proof.
  assert (Hmsg : forall m, existsb (String.eqb m) error_messages = true ->
                           In m error_messages).
  { intros m H. apply existsb_exists in H. destruct H as (m' & Hin & Heq).
    apply String.eqb_eq in Heq. now subst. }
  assert (Hsame : forall (c : list Entry),
             exists more, c = c ++ more
                          /\ (effectRender x = initial_state ->
                              existsb is_unload (issued more) = false)).
  { intros c. exists []. split; [now rewrite app_nil_r | reflexivity]. }
  unfold dispatch. destruct (mounted x) eqn:Hm; cbn [negb].
  2:{ destruct ev as [sc | sc | locationX sc | h' status | p' | sc].
      4:{ destruct (listener_of h' (listeners (world x))) as [q|];
            [|cbn; repeat split; auto].
          unfold in_world. cbn [world].
          destruct (detached_listener q status (world x)) as [-> ->].
          cbn; repeat split; auto. }
      all: cbn; repeat split; auto. }
  destruct x as [p width m er [[snd pl ld du po err] c cons nh nt ls]].
  cbn in *. clear Hm.
  destruct ev as [sc | sc | locationX sc | h' status | p' | sc]; cbn.
  - destruct ld; [cbn; repeat split; auto|].
    unfold run, playPause, loadAudio, try_catch, try_finally, bind,
      await, createAsync, next_outcome.
    destruct snd as [h0|]; [destruct pl|]; by_outcome sc.
    all: repeat split; auto.
    all: try (right; left; eexists; split; [reflexivity | apply Hmsg; reflexivity]).
    all: try (eexists; split; [reflexivity | intros _; reflexivity]).
  - destruct snd as [h0|]; [|cbn; repeat split; auto].
    unfold run, restart, try_catch, bind, await, next_outcome.
    destruct pl; by_outcome sc; try (by_outcome sc).
    all: repeat split; auto.
    all: try (right; left; eexists; split; [reflexivity | apply Hmsg; reflexivity]).
    all: try (eexists; split; [reflexivity | intros _; reflexivity]).
    all: eexists; split; [rewrite <- app_assoc; reflexivity | intros _; reflexivity].
  - destruct du as [d|]; cbn; [|repeat split; auto].
    destruct (JS.truthy d) eqn:Ht; [|cbn; repeat split; auto].
    unfold run, onProgressPress, seekTo, try_catch, await, next_outcome.
    destruct snd as [h0|]; cbn; rewrite ?Ht; [|repeat split; auto].
    by_outcome sc; repeat split; auto.
    all: eexists; split; [reflexivity | intros _; reflexivity].
  - destruct (listener_of h' ls) as [q|]; [|cbn; repeat split; auto].
    unfold run, statusListener.
    destruct status as [st | e]; cbn.
    + destruct (onPlaybackStatusUpdate q), (didJustFinish st); cbn;
        repeat split; auto; right; eexists; reflexivity.
    + destruct (JS.truthy_str e); cbn; repeat split; auto.
      right; left; eexists; split; [reflexivity | apply Hmsg; reflexivity].
  - repeat split; auto.
  - unfold run, cleanup, fire, next_outcome.
    destruct er as [[old|] epl eld edu epo eerr]; cbn.
    + repeat split; auto.
      eexists; split; [reflexivity | intros H; discriminate H].
    + repeat split; auto.
Qed.

Lemma dispatch_keeps_handle (x : Widget) (ev : Event) (h : Handle) :
  sound (state (world x)) = Some h ->
  sound (state (world (dispatch x ev))) = Some h.
Proof.
  intros Hs. destruct (dispatch_summary x ev) as ([Hsame | [Hnone _]] & _).
  - now rewrite Hsame.
  - rewrite Hs in Hnone. discriminate Hnone.
Qed.

Lemma or_null_truthy (v : option Q) (d : Q) :
  JS.or_null v = Some d -> JS.truthy d = true.
Proof.
  unfold JS.or_null. destruct v as [q|]; cbn; [|discriminate].
  destruct (JS.truthy q) eqn:Hq; [|discriminate].
  intros E. injection E as <-. exact Hq.
Qed.

(** ** The handle over the life of the widget *)

(** X5: once a handle is stored it stays the stored handle through every
    later sequence of events: presses, taps, status updates, renders of the
    host with other props (another [fileUrl] included) and the unmount. *)
Theorem sound_handle_is_kept :
  forall (evs : list Event) (x : Widget) (h : Handle),
    sound (state (world x)) = Some h ->
    sound (state (world (fold_left dispatch evs x))) = Some h.
Proof.
  induction evs as [|ev evs IH]; intros x h Hs; [exact Hs|].
  cbn [fold_left]. apply IH. apply dispatch_keeps_handle. exact Hs.
Qed.

Lemma sound_handle_is_kept_witness :
  sound (state (world (fold_left dispatch
                         [HostRender other_host; PressPlay []; PressRestart [Rejects];
                          Unmount []]
                         loaded_widget)))
  = Some 0%nat.
Proof.
  exact (sound_handle_is_kept
           [HostRender other_host; PressPlay []; PressRestart [Rejects]; Unmount []]
           loaded_widget 0%nat eq_refl).
Defined.

(** X6: no reachable widget has ever called [unloadAsync]: neither the
    unmount nor a load releases a sound. *)
Theorem widget_never_unloads :
  forall x : Widget,
    reachable x ->
    existsb is_unload (issued (calls (world x))) = false.
Proof.
  intros x Hx. induction Hx as [p width sc | x ev Hx IH].
  - unfold mount, run, configureAudio, try_catch, await, next_outcome.
    by_outcome sc; reflexivity.
  - destruct (dispatch_summary x ev) as (_ & _ & _ & more & Hcalls & Hmore).
    rewrite Hcalls. unfold issued in *. rewrite map_app, existsb_app, IH.
    apply Hmore. apply reachable_effectRender. exact Hx.
Qed.

Lemma widget_never_unloads_witness :
  existsb is_unload
    (issued (calls (world (dispatch (dispatch playing_widget (HostRender other_host))
                                    (Unmount [])))))
  = false.
Proof.
  apply widget_never_unloads.
  repeat apply reach_step. apply reach_mount.
Defined.

(** ** The error string *)

(** X7: while a handle is stored, an error string that is shown is never
    taken away: after any sequence of events an error string is still
    shown (the same one or a later one). *)
Theorem error_stays_while_loaded :
  forall (evs : list Event) (x : Widget) (h : Handle) (e : string),
    sound (state (world x)) = Some h ->
    error (state (world x)) = Some e ->
    exists e' : string,
      error (state (world (fold_left dispatch evs x))) = Some e'.
Proof.
  induction evs as [|ev evs IH]; intros x h e Hs He; [now exists e|].
  cbn [fold_left].
  destruct (dispatch_summary x ev) as (_ & [Hsame | [(m & Hm & _) | (Hnone & _)]] & _).
  - apply (IH _ h e); [now apply dispatch_keeps_handle | now rewrite Hsame].
  - apply (IH _ h m); [now apply dispatch_keeps_handle | exact Hm].
  - rewrite Hs in Hnone. discriminate Hnone.
Qed.

Lemma error_stays_while_loaded_witness :
  exists e' : string,
    error (state (world (fold_left dispatch
                           [PressPlay []; StatusUpdate 0%nat playing_status;
                            TapProgress 84 []]
                           failed_pause_widget)))
    = Some e'.
Proof.
  exact (error_stays_while_loaded
           [PressPlay []; StatusUpdate 0%nat playing_status; TapProgress 84 []]
           failed_pause_widget 0%nat "Gagal memutar audio" eq_refl eq_refl).
Defined.

(** X8: in every reachable state the error cell is empty or holds one of
    the four messages of the component; it never holds an empty string or
    a platform error text. *)
Theorem error_is_a_message :
  forall x : Widget,
    reachable x ->
    is_message (error (state (world x))) = true.
Proof.
  intros x Hx. induction Hx as [p width sc | x ev Hx IH].
  - unfold mount, run, configureAudio, try_catch, await, next_outcome.
    by_outcome sc; reflexivity.
  - destruct (dispatch_summary x ev)
      as (_ & [Hsame | [(m & Hm & Hin) | (_ & Hnone)]] & _).
    + now rewrite Hsame.
    + rewrite Hm. cbn [is_message]. apply existsb_exists.
      exists m. split; [exact Hin | apply String.eqb_refl].
    + now rewrite Hnone.
Qed.

Lemma error_is_a_message_witness :
  is_message (error (state (world failed_pause_widget))) = true.
Proof.
  apply error_is_a_message. repeat apply reach_step. apply reach_mount.
Defined.

(** ** The duration *)

(** X9: in every reachable state a known duration is not zero: the cell is
    written through [|| null] only, so the markup guarded by [duration &&]
    never receives a bare [0]. *)
Theorem duration_never_zero :
  forall (x : Widget) (d : Q),
    reachable x ->
    duration (state (world x)) = Some d ->
    JS.truthy d = true /\ ~ d == 0.
Proof.
  intros x d Hx. revert d.
  assert (H : forall d, duration (state (world x)) = Some d -> JS.truthy d = true).
  { induction Hx as [p width sc | x ev Hx IH]; intros d.
    - unfold mount, run, configureAudio, try_catch, await, next_outcome.
      by_outcome sc; discriminate.
    - destruct (dispatch_summary x ev) as (_ & _ & [Hsame | (v & Hv)] & _).
      + rewrite Hsame. apply IH.
      + rewrite Hv. apply or_null_truthy. }
  intros d Hd. split; [now apply H | apply truthy_true_iff; now apply H].
Qed.

Lemma duration_never_zero_witness :
  JS.truthy 5000 = true /\ ~ 5000 == 0.
Proof.
  apply (duration_never_zero playing_widget 5000); [|reflexivity].
  repeat apply reach_step. apply reach_mount.
Defined.

(** ** Status updates and the time text *)

Lemma formatTime_or_null (v : option Q) :
  formatTime (JS.or_null v) = formatTime v.
Proof.
  destruct v as [q|]; [|reflexivity].
  unfold JS.or_null, JS.truthy_opt. destruct (JS.truthy q) eqn:Hq; [reflexivity|].
  unfold formatTime. now rewrite Hq.
Qed.

(** X10: after a loaded status has been handled the time text reads the
    reported position, [" / "], the reported duration, each as [formatTime]
    shows it; when the status says the recording just finished, the position
    reads ["0:00"]. *)
Theorem status_update_shows_report :
  forall (x : Widget) (h : Handle) (p : Props) (st : LoadedStatus),
    mounted x = true ->
    listener_of h (listeners (world x)) = Some p ->
    timeText (state (world (dispatch x (StatusUpdate h (StatusSuccess st)))))
    = ((if didJustFinish st then "0:00" else formatTime (Some (positionMillis st)))
         ++ " / " ++ formatTime (durationMillis st))%string.
Proof.
  intros x h p st Hm Hl.
  unfold dispatch. rewrite Hm, Hl. cbn [negb].
  unfold in_world, run, statusListener, timeText.
  destruct (onPlaybackStatusUpdate p), (didJustFinish st); cbn;
    now rewrite !formatTime_or_null.
Qed.

Lemma status_update_shows_report_witness :
  timeText (state (world playing_widget)) = "0:01 / 0:05"%string.
Proof.
  exact (status_update_shows_report (dispatch loaded_widget (PressPlay []))
           0%nat host (mkLoaded (Some 5000) 1000 true false) eq_refl eq_refl).
Defined.

(** X11: a status that is not a loaded one changes nothing but the error
    string: with an error text it sets ["Error loading audio"] and logs the
    text; the handle, the playing flag, the duration and the position stay
    as they were, and no platform call is made. *)
Theorem error_status_only_sets_error :
  forall (x : Widget) (h : Handle) (p : Props) (err : option string),
    mounted x = true ->
    listener_of h (listeners (world x)) = Some p ->
    let x' := dispatch x (StatusUpdate h (StatusError err)) in
    state (world x')
    = (if JS.truthy_str err
       then apply_set (SetError (Some "Error loading audio"%string)) (state (world x))
       else state (world x))
    /\ console (world x')
       = console (world x)
           ++ (if JS.truthy_str err
               then [("Audio playback error:"%string, LogText err)]
               else [])
    /\ calls (world x') = calls (world x)
    /\ notified (world x') = notified (world x).
Proof.
  intros x h p err Hm Hl.
  unfold dispatch. rewrite Hm, Hl. cbn [negb].
  unfold in_world, run, statusListener.
  destruct x as [q width m er [[snd pl ld du po e0] c cons nh nt ls]].
  destruct (JS.truthy_str err); cbn; rewrite ?app_nil_r; repeat split.
Qed.

Lemma error_status_only_sets_error_witness :
  isPlaying (state (world (dispatch playing_widget (StatusUpdate 0%nat failure_status))))
  = true
  /\ error (state (world (dispatch playing_widget (StatusUpdate 0%nat failure_status))))
     = Some "Error loading audio"%string.
Proof.
  destruct (error_status_only_sets_error playing_widget 0%nat host
              (Some "decoder failure"%string) eq_refl eq_refl) as (Hstate & _).
  split; [exact (f_equal isPlaying Hstate) | exact (f_equal error Hstate)].
Defined.

(** X12: the press that follows a loaded status acts on what the status
    reported: with a handle stored, it pauses when the status said playing
    and did not say finished, and plays otherwise. *)
Theorem press_follows_status :
  forall (x : Widget) (h snd : Handle) (p : Props) (st : LoadedStatus)
         (sc : list Outcome),
    mounted x = true ->
    listener_of h (listeners (world x)) = Some p ->
    sound (state (world x)) = Some snd ->
    isLoading (state (world x)) = false ->
    calls (world (dispatch (dispatch x (StatusUpdate h (StatusSuccess st)))
                           (PressPlay sc)))
    = calls (world x)
        ++ [mkEntry (if Platform.isPlaying st && negb (didJustFinish st)
                     then PauseAsync snd else PlayAsync snd)
                    (hd Resolves sc)].
Proof.
  intros x h snd p st sc Hm Hl Hs Hld.
  destruct x as [q width m er [[s0 pl ld du po e0] c cons nh nt ls]].
  cbn in Hm, Hl, Hs, Hld. subst.
  unfold dispatch at 2. cbn [mounted negb world state listeners]. rewrite Hl.
  unfold in_world, run, statusListener.
  destruct (onPlaybackStatusUpdate p), (didJustFinish st), (Platform.isPlaying st);
    cbn; unfold playPause, try_catch, await, next_outcome; cbn;
    by_outcome sc; reflexivity.
Qed.

Lemma press_follows_status_witness :
  calls (world (dispatch (dispatch playing_widget
                            (StatusUpdate 0%nat (StatusSuccess finished_status)))
                         (PressPlay [])))
  = calls (world playing_widget) ++ [mkEntry (PlayAsync 0%nat) Resolves].
Proof.
  exact (press_follows_status playing_widget 0%nat 0%nat host finished_status []
           eq_refl eq_refl eq_refl eq_refl).
Defined.

(** ** More on the clock *)

Lemma formatTime_positive (ms : Q) :
  0 < ms ->
  formatTime (Some ms)
  = (JS.toString (Qfloor (ms / 1000) / 60) ++ ":"
       ++ two_digits (Qfloor (ms / 1000) mod 60))%string.
Proof.
  intros Hpos.
  assert (Hsec : (0 <= Qfloor (ms / 1000))%Z) by (apply whole_seconds_nonneg; exact Hpos).
  assert (Hnz : ~ ms == 0).
  { intros Hz. rewrite Hz in Hpos. discriminate Hpos. }
  unfold formatTime. rewrite (proj2 (truthy_true_iff ms) Hnz). cbn [negb].
  unfold JS.floor, JS.floor_div, JS.rem.
  rewrite Z.rem_mod_nonneg by lia.
  rewrite padStart_small by (apply Z.mod_pos_bound; lia).
  reflexivity.
Qed.

Lemma Qfloor_below (x : Q) (n : Z) : x < inject_Z n -> (Qfloor x < n)%Z.
Proof.
  intros Hx. rewrite Zlt_Qlt. apply Qle_lt_trans with x; [apply Qfloor_le | exact Hx].
Qed.

(** X13: a time of less than a second is shown like no time at all:
    ["0:00"]. *)
Theorem formatTime_under_a_second :
  forall ms : Q,
    0 <= ms -> ms < 1000 ->
    formatTime (Some ms) = "0:00"%string.
Proof.
  intros ms H0 H1.
  destruct (Qlt_le_dec 0 ms) as [Hpos | Hle].
  - rewrite formatTime_positive by exact Hpos.
    assert (Hfloor : Qfloor (ms / 1000) = 0%Z).
    { assert (Hlo : (0 <= Qfloor (ms / 1000))%Z) by now apply whole_seconds_nonneg.
      assert (Hhi : (Qfloor (ms / 1000) < 1)%Z).
      { apply (Qfloor_below _ 1). apply Qlt_shift_div_r; [reflexivity|].
        now rewrite Qmult_1_l. }
      lia. }
    rewrite Hfloor. reflexivity.
  - assert (Hz : ms == 0) by (apply Qle_antisym; assumption).
    unfold formatTime. now rewrite (proj2 (truthy_false_iff ms) Hz).
Qed.

Lemma formatTime_under_a_second_witness :
  formatTime (Some (1999 # 2)) = "0:00"%string.
Proof.
  apply formatTime_under_a_second; [discriminate | reflexivity].
Defined.

Lemma string_length_app (s t : string) :
  String.length (s ++ t) = (String.length s + String.length t)%nat.
Proof.
  induction s as [|c s IH]; cbn; [reflexivity | now rewrite IH].
Qed.

Lemma string_app_inj (s1 s2 t1 t2 : string) :
  String.length t1 = String.length t2 ->
  (s1 ++ t1 = s2 ++ t2)%string ->
  s1 = s2 /\ t1 = t2.
Proof.
  intros Hlen. revert s2.
  induction s1 as [|c s1 IH]; intros [|c' s2] H; cbn in H.
  - now split.
  - apply (f_equal String.length) in H. cbn in H.
    rewrite string_length_app in H. lia.
  - apply (f_equal String.length) in H. cbn in H.
    rewrite string_length_app in H. lia.
  - injection H as -> H. destruct (IH s2 H) as [-> ->]. now split.
Qed.

Lemma toString_inj (a b : Z) : JS.toString a = JS.toString b -> a = b.
Proof.
  assert (Hparse : forall z, NilZero.int_of_string (JS.toString z) = Some (Z.to_int z)).
  { intros z. unfold JS.toString. apply NilZero.isi.
    - destruct z as [|q|q]; cbn; try discriminate.
      intros H. injection H as H. now apply (Unsigned.to_uint_nonnil q).
    - destruct z as [|q|q]; cbn; try discriminate.
      intros H. injection H as H. now apply (Unsigned.to_uint_nonnil q). }
  intros H. apply (f_equal NilZero.int_of_string) in H.
  rewrite !Hparse in H. injection H as H. now apply DecimalZ.to_int_inj.
Qed.

Lemma digit_inj (d1 d2 : Z) :
  (0 <= d1 < 10)%Z -> (0 <= d2 < 10)%Z -> digit d1 = digit d2 -> d1 = d2.
Proof.
  intros H1 H2 H. unfold digit in H. apply (f_equal nat_of_ascii) in H.
  rewrite !nat_ascii_embedding in H by lia. lia.
Qed.

Lemma two_digits_inj (r1 r2 : Z) :
  (0 <= r1 < 60)%Z -> (0 <= r2 < 60)%Z ->
  two_digits r1 = two_digits r2 -> r1 = r2.
Proof.
  intros H1 H2 H. unfold two_digits in H. injection H as Htens Hunits.
  apply digit_inj in Htens;
    [|split; [apply Z.div_pos; lia | apply Z.div_lt_upper_bound; lia] ..].
  apply digit_inj in Hunits; [|apply Z.mod_pos_bound; lia ..].
  rewrite (Z.div_mod r1 10), (Z.div_mod r2 10) by lia. lia.
Qed.

(** X14: two positive times are shown by the same text exactly when they
    fall in the same whole second: the text loses the fraction of the second
    and nothing else (the minutes are not wrapped into hours). *)
Theorem formatTime_same_text_same_second :
  forall a b : Q,
    0 < a -> 0 < b ->
    formatTime (Some a) = formatTime (Some b)
    <-> Qfloor (a / 1000) = Qfloor (b / 1000).
Proof.
  intros a b Ha Hb. rewrite !formatTime_positive by assumption.
  split; [|now intros ->].
  intros H.
  assert (Hsa : (0 <= Qfloor (a / 1000))%Z) by now apply whole_seconds_nonneg.
  assert (Hsb : (0 <= Qfloor (b / 1000))%Z) by now apply whole_seconds_nonneg.
  apply string_app_inj in H; [|reflexivity].
  destruct H as [Hmin Hsec].
  apply toString_inj in Hmin.
  assert (Hdigits : two_digits (Qfloor (a / 1000) mod 60)
                    = two_digits (Qfloor (b / 1000) mod 60)).
  { exact (f_equal (fun s => match s with String _ t => t | EmptyString => s end) Hsec). }
  rewrite (Z.div_mod (Qfloor (a / 1000)) 60), (Z.div_mod (Qfloor (b / 1000)) 60) by lia.
  rewrite Hmin. f_equal.
  apply two_digits_inj; try (apply Z.mod_pos_bound; lia).
  exact Hdigits.
Qed.

Lemma formatTime_same_text_same_second_witness :
  formatTime (Some 61500) = formatTime (Some (123999 # 2)).
Proof.
  apply (formatTime_same_text_same_second 61500 (123999 # 2));
    reflexivity.
Defined.

(** ** More on the progress track *)

(** X15: on a window wider than 64 the offset of a tap grows with its
    place on the track: a tap further right never seeks further back. *)
Theorem offsetOf_monotone :
  forall width l1 l2 : Q,
    64 < width ->
    l1 <= l2 ->
    offsetOf width l1 <= offsetOf width l2.
Proof.
  intros width l1 l2 Hw Hl.
  assert (Htrack : 0 < progressBarWidth width).
  { unfold progressBarWidth. apply (proj1 (Qlt_minus_iff 64 width)). exact Hw. }
  unfold offsetOf, JS.max, JS.min.
  apply Q.max_le_compat_l. apply Q.min_le_compat_l.
  unfold Qdiv. apply Qmult_le_compat_r; [exact Hl|].
  apply Qinv_le_0_compat. apply Qlt_le_weak. exact Htrack.
Qed.

Lemma offsetOf_monotone_witness :
  offsetOf 400 84 <= offsetOf 400 168.
Proof.
  apply offsetOf_monotone; [reflexivity | discriminate].
Defined.

(** ** The progress fill *)

(** X16: when a status says the recording just finished, the effect on
    [position] and [duration] sends the progress fill nowhere: the position
    is then [0], which the effect's guard takes for an absent one, so the
    fill is not brought back to the start. *)
Theorem finished_leaves_progress :
  forall (x : Widget) (h : Handle) (p : Props) (st : LoadedStatus),
    mounted x = true ->
    listener_of h (listeners (world x)) = Some p ->
    didJustFinish st = true ->
    progressEffect (state (world (dispatch x (StatusUpdate h (StatusSuccess st)))))
    = None.
Proof.
  intros x h p st Hm Hl Hfin.
  unfold dispatch. rewrite Hm, Hl. cbn [negb].
  unfold in_world, run, statusListener, progressEffect. rewrite Hfin.
  destruct (onPlaybackStatusUpdate p); cbn;
    destruct (JS.or_null (durationMillis st)) as [d|]; try reflexivity;
    now rewrite andb_false_r.
Qed.

Lemma finished_leaves_progress_witness :
  progressEffect (state (world (dispatch playing_widget
                                  (StatusUpdate 0%nat (StatusSuccess finished_status)))))
  = None.
Proof.
  exact (finished_leaves_progress playing_widget 0%nat host finished_status
           eq_refl eq_refl eq_refl).
Defined.

(** X17: after a loaded status that reports a position [0 < position <=
    duration] (and not the end), the effect sends the progress fill to
    [position / duration], a fraction in (0, 1]. *)
Theorem progress_within_track :
  forall (x : Widget) (h : Handle) (p : Props) (st : LoadedStatus) (d : Q),
    mounted x = true ->
    listener_of h (listeners (world x)) = Some p ->
    didJustFinish st = false ->
    durationMillis st = Some d ->
    0 < positionMillis st ->
    positionMillis st <= d ->
    progressEffect (state (world (dispatch x (StatusUpdate h (StatusSuccess st)))))
    = Some (positionMillis st / d)
    /\ 0 < positionMillis st / d
    /\ positionMillis st / d <= 1.
Proof.
  intros x h p st d Hm Hl Hfin Hd Hpos Hle.
  assert (Hdpos : 0 < d) by (apply Qlt_le_trans with (positionMillis st); assumption).
  assert (Htp : JS.truthy (positionMillis st) = true).
  { apply truthy_true_iff. intros Hz. rewrite Hz in Hpos. discriminate Hpos. }
  assert (Htd : JS.truthy d = true).
  { apply truthy_true_iff. intros Hz. rewrite Hz in Hdpos. discriminate Hdpos. }
  split; [|split].
  - unfold dispatch. rewrite Hm, Hl. cbn [negb].
    unfold in_world, run, statusListener, progressEffect. rewrite Hfin, Hd.
    unfold JS.or_null, JS.truthy_opt. rewrite Htp, Htd.
    destruct (onPlaybackStatusUpdate p); cbn; now rewrite Htp, Htd.
  - apply Qlt_shift_div_l; [exact Hdpos | now rewrite Qmult_0_l].
  - apply Qle_shift_div_r; [exact Hdpos | now rewrite Qmult_1_l].
Qed.

Lemma progress_within_track_witness :
  progressEffect (state (world playing_widget)) = Some (1000 / 5000)
  /\ 0 < 1000 / 5000
  /\ 1000 / 5000 <= 1.
Proof.
  apply (progress_within_track (dispatch loaded_widget (PressPlay [])) 0%nat host
           (mkLoaded (Some 5000) 1000 true false) 5000);
    try reflexivity; discriminate.
Defined.

(** ** Presses and the component state *)

(** X18: a press of play/pause with a handle stored does not touch the
    component state when the platform call goes through (the playing flag
    moves only with a status update); when the call is rejected the state
    changes by the error string ["Gagal memutar audio"] alone, and the
    rejection is logged. *)
Theorem playPause_sets_error_only_on_failure :
  forall (x : Widget) (sc : list Outcome) (snd : Handle),
    mounted x = true ->
    sound (state (world x)) = Some snd ->
    isLoading (state (world x)) = false ->
    let s := state (world x) in
    let asked := if isPlaying s then PauseAsync snd else PlayAsync snd in
    let x' := dispatch x (PressPlay sc) in
    state (world x')
    = match hd Resolves sc with
      | Resolves => s
      | Rejects => apply_set (SetError (Some "Gagal memutar audio"%string)) s
      end
    /\ console (world x')
       = console (world x)
           ++ match hd Resolves sc with
              | Resolves => []
              | Rejects => [("Error playing audio:"%string, LogExn (Rejected asked))]
              end.
Proof.
  intros x sc snd Hm Hs Hl. open_widget x. subst.
  unfold run, playPause; cbn.
  destruct isPlaying0; unfold try_catch, await, next_outcome; cbn;
    by_outcome sc; rewrite ?app_nil_r; split; reflexivity.
Qed.

Lemma playPause_sets_error_only_on_failure_witness :
  state (world failed_pause_widget)
  = apply_set (SetError (Some "Gagal memutar audio"%string)) (state (world playing_widget)).
Proof.
  exact (proj1 (playPause_sets_error_only_on_failure playing_widget [Rejects] 0%nat
                  eq_refl eq_refl eq_refl)).
Defined.

(** X19: a press of restart changes the component state only when one of
    its platform calls is rejected, the seek or the play that follows it,
    and then by the error string ["Gagal mengulang audio"] alone; after a
    rejected seek no play is attempted. *)
Theorem restart_sets_error_only_on_failure :
  forall (x : Widget) (sc : list Outcome) (snd : Handle),
    mounted x = true ->
    sound (state (world x)) = Some snd ->
    let s := state (world x) in
    let failed :=
      match hd Resolves sc with
      | Rejects => true
      | Resolves =>
          match isPlaying s, hd Resolves (tl sc) with
          | false, Rejects => true
          | _, _ => false
          end
      end in
    let x' := dispatch x (PressRestart sc) in
    state (world x')
    = (if failed
       then apply_set (SetError (Some "Gagal mengulang audio"%string)) s
       else s)
    /\ (hd Resolves sc = Rejects ->
        calls (world x')
        = calls (world x) ++ [mkEntry (SetPositionAsync snd 0) Rejects]).
Proof.
  intros x sc snd Hm Hs. open_widget x. subst.
  unfold run, restart; cbn.
  unfold try_catch, bind, await, next_outcome; cbn.
  destruct isPlaying0; by_outcome sc; try (by_outcome sc);
    split; try reflexivity; intros H; try discriminate H; reflexivity.
Qed.

Lemma restart_sets_error_only_on_failure_witness :
  error (state (world (dispatch loaded_widget (PressRestart [Resolves; Rejects]))))
  = Some "Gagal mengulang audio"%string.
Proof.
  exact (f_equal error
           (proj1 (restart_sets_error_only_on_failure loaded_widget
                     [Resolves; Rejects] 0%nat eq_refl eq_refl))).
Defined.

(** X20: a tap on the progress track never changes the component state,
    whether its seek goes through or is rejected; a rejected seek leaves one
    line in the console. *)
Theorem tap_never_changes_state :
  forall (x : Widget) (locationX : Q) (sc : list Outcome),
    let x' := dispatch x (TapProgress locationX sc) in
    state (world x') = state (world x)
    /\ notified (world x') = notified (world x)
    /\ (length (console (world x')) <= S (length (console (world x))))%nat.
Proof.
  intros x locationX sc. unfold dispatch.
  destruct (mounted x); cbn [negb]; [|repeat split; lia].
  destruct (JS.truthy_opt (duration (state (world x)))) eqn:Hd;
    [|repeat split; lia].
  unfold in_world, run, onProgressPress.
  generalize (offsetOf (windowWidth x) locationX) as k. intros k.
  destruct x as [p width m er [[snd pl ld du po err] c cons nh nt ls]].
  cbn in Hd |- *. destruct du as [d|]; [|discriminate Hd]. cbn in Hd.
  unfold seekTo, try_catch, await, next_outcome; cbn. rewrite Hd.
  destruct snd as [h0|]; [|cbn; repeat split; lia].
  by_outcome sc; repeat split; rewrite ?length_app; cbn; lia.
Qed.

(** ** The root layout *)

Lemma layout_fold (evs : list Layout.Event) (r : Layout.Root) :
  Layout.splashCalls (fold_left Layout.step evs r) = Layout.splashCalls r
  /\ Layout.showCustomSplash (fold_left Layout.step evs r)
     = Layout.showCustomSplash r && negb (existsb Layout.is_complete evs).
Proof.
  revert r. induction evs as [|ev evs IH]; intros r; cbn [fold_left existsb].
  - now rewrite andb_true_r.
  - destruct (IH (Layout.step r ev)) as [Hcalls Hshow].
    rewrite Hcalls, Hshow. destruct ev; cbn; [|now split].
    split; [reflexivity | now rewrite andb_false_r].
Qed.

(** X21: whatever happens after the mount, the native splash screen module
    has been called exactly twice, [preventAutoHideAsync] when the module
    was loaded and then [hideAsync] once; and the layout returns the custom
    splash screen until its animation completes for the first time, and
    from then on the navigation stack with its three screens, never the
    splash screen again. *)
Theorem layout_after_mount :
  forall (os : string) (evs : list Layout.Event),
    let r := Layout.mounted_then evs in
    Layout.splashCalls r = [Layout.PreventAutoHideAsync; Layout.HideAsync]
    /\ Layout.RootLayout os r
       = if existsb Layout.is_complete evs
         then Layout.Shell false ["(auth)"; "(tabs)"; "+not-found"]%string
                           "light" (String.eqb os "android")
         else Layout.SplashScreen.
Proof.
  intros os evs. unfold Layout.mounted_then, Layout.RootLayout.
  destruct (layout_fold evs (Layout.mountEffect Layout.loaded)) as [Hcalls Hshow].
  rewrite Hcalls, Hshow. cbn.
  destruct (existsb Layout.is_complete evs); split; reflexivity.
Qed.
